(** * Kythe: the analysis driver (kythe/go/platform/analysis/driver) and the
    Bazel artifact selectors (kythe/cxx/extractor/bazel_artifact_selector.h).

    The Go driver is embedded as explicit state passing over a trace of
    interactions with its collaborators; every external function (the Queue,
    the hooks, the analyzer) is an oracle of the interaction history.  The
    unbounded loops of [Driver.Run] are given fuel; [None] means that the
    fuel ran out. *)

From Stdlib Require Import Bool Arith Lia.
From stdpp Require Import base gmap sets list strings.
Import ListNotations.

Module Driver.

(** ** Errors.  Go errors are compared by identity; the only comparisons in
    [Run] are against [ErrRetry] and [io.EOF], and the constructors below are
    distinct from both unless they are these very values. *)
Inductive error :=
| ErrRetry                 (* errors.New("retry analysis") *)
| EOF                      (* io.EOF *)
| New (msg : string)       (* another value built by errors.New *)
| Errorf (msg : string).   (* a fresh value built by fmt.Errorf("...%v", ...) *)

(** [err.Error()] *)
Definition Error (e : error) : string :=
  match e with
  | ErrRetry => "retry analysis"%string
  | EOF => "EOF"%string
  | New m => m
  | Errorf m => m
  end.

(** [err == ErrRetry] and [err == io.EOF] on a possibly nil error. *)
Definition is_retry (e : option error) : bool :=
  match e with Some ErrRetry => true | _ => false end.
Definition is_eof (e : option error) : bool :=
  match e with Some EOF => true | _ => false end.

(** ** Data. The compilation unit and the analysis outputs are opaque. *)
Definition CompilationUnit := nat.
Definition AnalysisOutput := string.

Record Compilation := { Unit : CompilationUnit; Revision : string }.

Record AnalysisRequest := {
  req_Compilation : CompilationUnit;
  req_FileDataService : string;
  req_Revision : string }.

(** Every interaction of the driver with its collaborators. *)
Inductive event :=
| EvNext                                  (* queue.Next *)
| EvSetup (cu : Compilation)              (* d.Setup *)
| EvAnalyze (req : AnalysisRequest)       (* d.Analyzer.Analyze *)
| EvOutput (o : AnalysisOutput)           (* d.Output, called by the analyzer *)
| EvAnalysisError (cu : Compilation) (e : error)   (* d.AnalysisError *)
| EvTeardown (cu : Compilation)           (* d.Teardown *)
| EvLog (msg : string).                   (* log.Printf *)

(** Interaction history, oldest first. *)
Definition trace := list event.

(** ** Collaborators: each answers as a function of the history so far. *)
Definition CompilationFunc := trace -> Compilation -> option error.
Definition OutputFunc := trace -> AnalysisOutput -> option error.
Definition AnalysisErrorFunc := trace -> Compilation -> error -> option error.

(** An analyzer run: it streams outputs to the sink it is given (seeing the
    sink's answer) and finally returns its result. *)
Inductive AnalyzerProg :=
| Emit (o : AnalysisOutput) (k : option error -> AnalyzerProg)
| Return (r : option error).

Definition CompilationAnalyzer := trace -> AnalysisRequest -> AnalyzerProg.

(** [Queue.Next]: either it has a next compilation, with which it invokes [f]
    and returns what [f] returns, or it returns an error ([io.EOF] once
    exhausted). *)
Inductive NextAnswer :=
| Item (cu : Compilation)
| Stop (e : error).

Definition Queue := trace -> NextAnswer.

Record Driver := {
  Analyzer : option CompilationAnalyzer;
  FileDataService : string;
  Setup : option CompilationFunc;
  Output : option OutputFunc;
  Teardown : option CompilationFunc;
  AnalysisError : option AnalysisErrorFunc }.

(** ** [Driver.validate]: on success the checked fields are handed on. *)
Definition validate (d : Driver) : error + (CompilationAnalyzer * OutputFunc) :=
  match Analyzer d, Output d with
  | None, _ => inl (New "missing Analyzer"%string)
  | Some _, None => inl (New "missing Output function"%string)
  | Some a, Some out => inr (a, out)
  end.

(** The analyzer writing to [d.Output]. *)
Fixpoint run_analyzer (out : OutputFunc) (p : AnalyzerProg) (tr : trace)
  : option error * trace :=
  match p with
  | Return r => (r, tr)
  | Emit o k => run_analyzer out (k (out tr o)) (tr ++ [EvOutput o])
  end.

Definition request (d : Driver) (cu : Compilation) : AnalysisRequest :=
  {| req_Compilation := Unit cu;
     req_FileDataService := FileDataService d;
     req_Revision := Revision cu |}.

(** [d.Analyzer.Analyze(ctx, &apb.AnalysisRequest{...}, d.Output)] *)
Definition analyze (d : Driver) (a : CompilationAnalyzer) (out : OutputFunc)
    (cu : Compilation) (tr : trace) : option error * trace :=
  run_analyzer out (a tr (request d cu)) (tr ++ [EvAnalyze (request d cu)]).

(** The body of [for err == ErrRetry { ... }]. *)
Definition analysis_step (d : Driver) (a : CompilationAnalyzer) (out : OutputFunc)
    (cu : Compilation) (tr : trace) : option error * trace :=
  let '(err, tr1) := analyze d a out cu tr in
  match AnalysisError d, err with
  | Some h, Some e => (h tr1 cu e, tr1 ++ [EvAnalysisError cu e])
  | _, _ => (err, tr1)
  end.

(** [for err == ErrRetry { ... }] *)
Fixpoint analysis_loop (fuel : nat) (d : Driver) (a : CompilationAnalyzer)
    (out : OutputFunc) (cu : Compilation) (err : option error) (tr : trace)
  : option (option error * trace) :=
  match fuel with
  | 0 => None
  | S fuel' =>
      if is_retry err then
        let '(err', tr') := analysis_step d a out cu tr in
        analysis_loop fuel' d a out cu err' tr'
      else Some (err, tr)
  end.

Definition teardown_warning (tErr err : error) : string :=
  ("WARNING: analysis teardown error after analysis error: " ++ Error tErr
   ++ " (analysis error: " ++ Error err ++ ")")%string.

(** [if d.Teardown != nil { ... }; return err] *)
Definition teardown_step (d : Driver) (cu : Compilation) (err : option error)
    (tr : trace) : option error * trace :=
  match Teardown d with
  | None => (err, tr)
  | Some td =>
      let tr1 := tr ++ [EvTeardown cu] in
      match td tr cu with
      | None => (err, tr1)
      | Some tErr =>
          match err with
          | None => (Some (Errorf ("analysis teardown error: " ++ Error tErr)%string), tr1)
          | Some e => (err, tr1 ++ [EvLog (teardown_warning tErr e)])
          end
      end
  end.

(** The [CompilationFunc] closure passed to [queue.Next] in [Run]. *)
Definition compilation_func (fuel : nat) (d : Driver) (a : CompilationAnalyzer)
    (out : OutputFunc) (cu : Compilation) (tr : trace)
  : option (option error * trace) :=
  let setup :=
    match Setup d with
    | None => (None, tr)
    | Some s => (s tr cu, tr ++ [EvSetup cu])
    end in
  match setup with
  | (Some e, tr1) => Some (Some (Errorf ("analysis setup error: " ++ Error e)%string), tr1)
  | (None, tr1) =>
      match analysis_loop fuel d a out cu (Some ErrRetry) tr1 with
      | None => None
      | Some (err, tr2) => Some (teardown_step d cu err tr2)
      end
  end.

(** [queue.Next(ctx, f)] *)
Definition next (q : Queue)
    (f : Compilation -> trace -> option (option error * trace)) (tr : trace)
  : option (option error * trace) :=
  let tr1 := tr ++ [EvNext] in
  match q tr with
  | Item cu => f cu tr1
  | Stop e => Some (Some e, tr1)
  end.

(** The outer [for { ... }] of [Run]. *)
Fixpoint run_loop (fuel : nat) (d : Driver) (a : CompilationAnalyzer)
    (out : OutputFunc) (q : Queue) (tr : trace) : option (option error * trace) :=
  match fuel with
  | 0 => None
  | S fuel' =>
      match next q (compilation_func fuel' d a out) tr with
      | None => None
      | Some (err, tr') =>
          if is_eof err then Some (None, tr')
          else match err with
               | Some e => Some (Some e, tr')
               | None => run_loop fuel' d a out q tr'
               end
      end
  end.

(** [func (d *Driver) Run(ctx context.Context, queue Queue) error] *)
Definition Run (fuel : nat) (d : Driver) (q : Queue) (tr : trace)
  : option (option error * trace) :=
  match validate d with
  | inl e => Some (Some e, tr)
  | inr (a, out) => run_loop fuel d a out q tr
  end.

(** ** Reading a trace. *)
#[global] Instance Compilation_eq_dec : EqDecision Compilation.
Proof. solve_decision. Defined.
#[global] Instance AnalysisRequest_eq_dec : EqDecision AnalysisRequest.
Proof. solve_decision. Defined.

Definition is_next (ev : event) : bool :=
  match ev with EvNext => true | _ => false end.
Definition is_analyze_of (req : AnalysisRequest) (ev : event) : bool :=
  match ev with EvAnalyze r => bool_decide (r = req) | _ => false end.
Definition is_setup_of (cu : Compilation) (ev : event) : bool :=
  match ev with EvSetup c => bool_decide (c = cu) | _ => false end.
Definition is_teardown_of (cu : Compilation) (ev : event) : bool :=
  match ev with EvTeardown c => bool_decide (c = cu) | _ => false end.

Fixpoint count_ev (p : event -> bool) (tr : trace) : nat :=
  match tr with
  | [] => 0
  | ev :: tr' => (if p ev then 1 else 0) + count_ev p tr'
  end.

(** The events up to the first [EvNext]. *)
Fixpoint segment (tr : trace) : trace :=
  match tr with
  | [] => []
  | EvNext :: _ => []
  | ev :: tr' => ev :: segment tr'
  end.

(** The events of each item: what follows each [queue.Next] call up to the
    following one. *)
Fixpoint items (tr : trace) : list trace :=
  match tr with
  | [] => []
  | EvNext :: tr' => segment tr' :: items tr'
  | _ :: tr' => items tr'
  end.

(** The events since the last [queue.Next] call. *)
Definition since_next (tr : trace) : trace := rev (segment (rev tr)).

(** ** Collaborators used to state the retry-counting property. *)

(** A queue handing out [cus] in order, then [io.EOF]. *)
Definition queue_of_list (cus : list Compilation) : Queue :=
  fun tr => match cus !! count_ev is_next tr with
            | Some cu => Item cu
            | None => Stop EOF
            end.

(** An analyzer run that streams [os] (ignoring the sink's answers) and then
    returns [r]. *)
Definition emit_all (os : list AnalysisOutput) (r : option error) : AnalyzerProg :=
  fold_right (fun o p => Emit o (fun _ => p)) (Return r) os.

(** An analyzer which answers [ErrRetry] to the first [K] requests for the
    current compilation and succeeds afterwards. *)
Definition retry_analyzer (K : nat) (os : trace -> AnalysisRequest -> list AnalysisOutput)
  : CompilationAnalyzer :=
  fun tr req =>
    emit_all (os tr req)
      (if count_ev (is_analyze_of req) (since_next tr) <? K then Some ErrRetry else None).

(** ** [type IO interface] and [func (d *Driver) Apply(io IO)].  The method
    values taken from an interface are never nil. *)
Record IO := {
  IO_Setup : CompilationFunc;
  IO_Output : OutputFunc;
  IO_Teardown : CompilationFunc;
  IO_AnalysisError : AnalysisErrorFunc }.

Definition Apply (d : Driver) (io : IO) : Driver :=
  {| Analyzer := Analyzer d;
     FileDataService := FileDataService d;
     Setup := Some (IO_Setup io);
     Output := Some (IO_Output io);
     Teardown := Some (IO_Teardown io);
     AnalysisError := Some (IO_AnalysisError io) |}.

Definition is_teardown (ev : event) : bool :=
  match ev with EvTeardown _ => true | _ => false end.
Definition is_output (ev : event) : bool :=
  match ev with EvOutput _ => true | _ => false end.

(** The events a [CompilationFunc] call for [cu] may cause: none of them is
    a call of [Next], and each one is about [cu]. *)
Definition concerns (d : Driver) (cu : Compilation) (ev : event) : Prop :=
  match ev with
  | EvNext => False
  | EvSetup c | EvTeardown c | EvAnalysisError c _ => c = cu
  | EvAnalyze req => req = request d cu
  | EvOutput _ | EvLog _ => True
  end.

End Driver.

Module DriverFixtures.
Import Driver.

(** ** Small concrete collaborators. *)
Definition cu1 : Compilation := {| Unit := 1; Revision := "r1" |}.
Definition ok_analyzer : CompilationAnalyzer := fun _ _ => Return None.
Definition retrying_analyzer : CompilationAnalyzer := fun _ _ => Return (Some ErrRetry).
Definition ok_output : OutputFunc := fun _ _ => None.
Definition ok_hook : CompilationFunc := fun _ _ => None.
Definition failing_hook (msg : string) : CompilationFunc := fun _ _ => Some (New msg).
Definition one_item_queue : Queue := queue_of_list [cu1].

Definition driver_with (a : option CompilationAnalyzer) (out : option OutputFunc)
    (s td : option CompilationFunc) (h : option AnalysisErrorFunc) : Driver :=
  {| Analyzer := a; FileDataService := "fds"; Setup := s; Output := out;
     Teardown := td; AnalysisError := h |}.

Definition bad_analyzer : CompilationAnalyzer := fun _ _ => Return (Some (New "bad")).
Definition d_ok : Driver :=
  driver_with (Some ok_analyzer) (Some ok_output) None (Some ok_hook) None.
Definition d_setup_fails : Driver :=
  driver_with (Some ok_analyzer) (Some ok_output) (Some (failing_hook "boom"))
              (Some ok_hook) None.
Definition d_both_fail : Driver :=
  driver_with (Some bad_analyzer) (Some ok_output) None (Some (failing_hook "td")) None.


Definition K2_analyzer : CompilationAnalyzer := retry_analyzer 2 (fun _ _ => ["out"]).
Definition two_items : list Compilation :=
  [{| Unit := 1; Revision := "r1" |}; {| Unit := 2; Revision := "r2" |}].
Definition d_retrying : Driver :=
  {| Analyzer := Some K2_analyzer; FileDataService := "fds"; Setup := None;
     Output := Some (fun _ _ => None); Teardown := Some (fun _ _ => None);
     AnalysisError := None |}.

End DriverFixtures.

Module Selector.

(** ** Build events and artifacts (bazel_artifact.h, build_event_stream). *)
Record BazelArtifactFile := {
  local_path : string;
  uri : string }.

(** An artifact: the label of the target which selected it and its files. *)
Record BazelArtifact := {
  label : string;
  files : list BazelArtifactFile }.

Inductive BuildEvent :=
| NamedSetOfFiles (id : string) (fs : list BazelArtifactFile)
| TargetCompleted (target_label aspect : string) (success : bool)
    (output_groups : list (string * list string))
| ActionCompleted (action_type : string) (success : bool)
    (primary_output : BazelArtifactFile) (action_label : string)
| OtherEvent.

(** [google.protobuf.Any]: a type url and a payload.  The payload of a
    [kythe.proto.BazelAspectArtifactSelectorState] either decodes to its three
    fields or does not decode at all ([None]). *)
Record SelectorStateProto := {
  proto_disposed : list string;
  proto_filesets : list (string * list BazelArtifactFile);
  proto_pending : list (string * string) }.

Record Any := {
  type_url : string;
  value : option SelectorStateProto }.

Definition aspect_state_type_url : string :=
  "type.googleapis.com/kythe.proto.BazelAspectArtifactSelectorState".

Inductive Status :=
| OkStatus
| UnimplementedError (msg : string)
| InvalidArgumentError (msg : string)
| FailedPreconditionError (msg : string)
| NotFoundError (msg : string).

(** ** [class BazelArtifactSelector]: the three virtual operations, with the
    base class's defaults for the two that subclasses may leave alone. *)
Class BazelArtifactSelector (S : Type) := {
  Select : S -> BuildEvent -> option BazelArtifact * S;
  SerializeInto : S -> Any -> bool * Any;
  DeserializeFrom : S -> Any -> Status * S }.

(** [virtual bool SerializeInto(Any& state) const { return false; }] *)
Definition default_SerializeInto {S} (_ : S) (state : Any) : bool * Any :=
  (false, state).

(** [virtual Status DeserializeFrom(const Any& state)
    { return absl::UnimplementedError("stateless selector"); }] *)
Definition default_DeserializeFrom {S} (self : S) (_ : Any) : Status * S :=
  (UnimplementedError "stateless selector", self).

(** ** [ExtraActionSelector]: overrides [Select] only. *)
Record ExtraActionSelector := { action_matches : string -> bool }.

(** Modelled from the spec: [ExtraActionSelector::Select] and its
    constructor (bazel_artifact_selector.cc is absent).  A successful
    [ActionCompleted] whose action type matches yields its primary output
    under the action's label. *)
Definition ExtraActionSelector_Select (self : ExtraActionSelector)
    (ev : BuildEvent) : option BazelArtifact * ExtraActionSelector :=
  match ev with
  | ActionCompleted ty true out lbl =>
      if action_matches self ty
      then (Some {| label := lbl; files := [out] |}, self)
      else (None, self)
  | _ => (None, self)
  end.

(** Modelled from the spec: the set constructor; an empty set matches every
    action type. *)
Definition ExtraActionSelector_of_set (action_types : list string) : ExtraActionSelector :=
  {| action_matches := fun ty =>
       match action_types with
       | [] => true
       | _ => bool_decide (ty ∈ action_types)
       end |}.

#[export] Instance ExtraActionSelector_selector : BazelArtifactSelector ExtraActionSelector := {
  Select := ExtraActionSelector_Select;
  SerializeInto := default_SerializeInto;
  DeserializeFrom := default_DeserializeFrom }.

(** ** [AspectArtifactSelector]. Regex sets are modelled by their match
    predicates. *)
Record Options := {
  file_name_allowlist : string -> bool;
  output_group_allowlist : string -> bool;
  target_aspect_allowlist : string -> bool }.

Record State := {
  disposed : gset string;
  filesets : gmap string (list BazelArtifactFile);
  pending : gmap string string }.

Record AspectArtifactSelector := {
  options_ : Options;
  state_ : State }.

Definition empty_state : State :=
  {| disposed := ∅; filesets := ∅; pending := ∅ |}.

(** [explicit AspectArtifactSelector(Options options)] *)
Definition make_aspect_selector (o : Options) : AspectArtifactSelector :=
  {| options_ := o; state_ := empty_state |}.

Definition with_state (self : AspectArtifactSelector) (st : State) :=
  {| options_ := options_ self; state_ := st |}.

(** Modelled from the spec: [AspectArtifactSelector::SelectFileSet]
    (bazel_artifact_selector.cc is absent), following section 4.1 on a
    NamedSetOfFiles event. *)
Definition SelectFileSet (self : AspectArtifactSelector) (id : string)
    (fs : list BazelArtifactFile) : option BazelArtifact * AspectArtifactSelector :=
  let st := state_ self in
  if bool_decide (id ∈ disposed st) then (None, self) else
  let kept := filter (fun f => file_name_allowlist (options_ self) (local_path f) = true) fs in
  match pending st !! id with
  | Some target =>
      (Some {| label := target; files := kept |},
       with_state self {| disposed := {[id]} ∪ disposed st;
                          filesets := filesets st;
                          pending := delete id (pending st) |})
  | None =>
      (None, with_state self {| disposed := disposed st;
                                filesets := <[id := kept]> (filesets st);
                                pending := pending st |})
  end.

(** Modelled from the spec: one referenced fileset id of a qualifying
    TargetCompleted event; the first artifact resolved is the one kept. *)
Definition claim_fileset (target : string)
    (acc : option BazelArtifact * State) (id : string) : option BazelArtifact * State :=
  let '(found, st) := acc in
  if bool_decide (id ∈ disposed st) then acc else
  match filesets st !! id with
  | Some kept =>
      let art := {| label := target; files := kept |} in
      (match found with None => Some art | Some _ => found end,
       {| disposed := {[id]} ∪ disposed st;
          filesets := delete id (filesets st);
          pending := pending st |})
  | None =>
      (found, {| disposed := disposed st;
                 filesets := filesets st;
                 pending := <[id := target]> (pending st) |})
  end.

(** Modelled from the spec: [AspectArtifactSelector::SelectTargetCompleted]. *)
Definition SelectTargetCompleted (self : AspectArtifactSelector) (target aspect : string)
    (success : bool) (groups : list (string * list string))
  : option BazelArtifact * AspectArtifactSelector :=
  let o := options_ self in
  let qualifying := filter (fun g => output_group_allowlist o g.1 = true) groups in
  if negb success || negb (target_aspect_allowlist o aspect) then (None, self)
  else match qualifying with
  | [] => (None, self)
  | _ =>
      let '(found, st) :=
        foldl (claim_fileset target) (None, state_ self) (concat (map snd qualifying)) in
      (found, with_state self st)
  end.

(** Modelled from the spec: [AspectArtifactSelector::Select]. *)
Definition AspectArtifactSelector_Select (self : AspectArtifactSelector)
    (ev : BuildEvent) : option BazelArtifact * AspectArtifactSelector :=
  match ev with
  | NamedSetOfFiles id fs => SelectFileSet self id fs
  | TargetCompleted t a ok groups => SelectTargetCompleted self t a ok groups
  | _ => (None, self)
  end.

(** Modelled from the spec: [AspectArtifactSelector::SerializeInto], which
    always writes a [BazelAspectArtifactSelectorState] and returns true. *)
Definition AspectArtifactSelector_SerializeInto (self : AspectArtifactSelector)
    (_ : Any) : bool * Any :=
  let st := state_ self in
  (true, {| type_url := aspect_state_type_url;
            value := Some {| proto_disposed := elements (disposed st);
                             proto_filesets := map_to_list (filesets st);
                             proto_pending := map_to_list (pending st) |} |}).

(** Modelled from the spec: [AspectArtifactSelector::DeserializeFrom]: type
    check, decode, then replace the whole state. *)
Definition AspectArtifactSelector_DeserializeFrom (self : AspectArtifactSelector)
    (a : Any) : Status * AspectArtifactSelector :=
  if negb (bool_decide (type_url a = aspect_state_type_url))
  then (FailedPreconditionError "wrong state type", self)
  else match value a with
  | None => (InvalidArgumentError "undecodable state", self)
  | Some p =>
      (OkStatus, with_state self {| disposed := list_to_set (proto_disposed p);
                                    filesets := list_to_map (proto_filesets p);
                                    pending := list_to_map (proto_pending p) |})
  end.

#[export] Instance AspectArtifactSelector_selector : BazelArtifactSelector AspectArtifactSelector := {
  Select := AspectArtifactSelector_Select;
  SerializeInto := AspectArtifactSelector_SerializeInto;
  DeserializeFrom := AspectArtifactSelector_DeserializeFrom }.

(** Feeding a sequence of events to a selector, collecting the outputs. *)
Fixpoint select_all {S} `{BazelArtifactSelector S} (self : S) (evs : list BuildEvent)
  : list (option BazelArtifact) * S :=
  match evs with
  | [] => ([], self)
  | ev :: evs' =>
      let '(r, self') := Select self ev in
      let '(rs, self'') := select_all self' evs' in
      (r :: rs, self'')
  end.

(** ** [class AnyArtifactSelector]: a type-erased selector holding its own
    copy of the wrapped value and forwarding the three operations to it. *)
Record AnyArtifactSelector := MkAnyArtifactSelector {
  held_type : Type;
  held_selector : BazelArtifactSelector held_type;
  held : held_type }.

(** [AnyArtifactSelector(S s)] *)
Definition wrap {S} `{I : BazelArtifactSelector S} (s : S) : AnyArtifactSelector :=
  MkAnyArtifactSelector S I s.

Definition AnyArtifactSelector_Select (self : AnyArtifactSelector) (ev : BuildEvent)
  : option BazelArtifact * AnyArtifactSelector :=
  let '(r, s') := @Select _ (held_selector self) (held self) ev in
  (r, MkAnyArtifactSelector _ (held_selector self) s').

Definition AnyArtifactSelector_SerializeInto (self : AnyArtifactSelector) (state : Any)
  : bool * Any :=
  @SerializeInto _ (held_selector self) (held self) state.

Definition AnyArtifactSelector_DeserializeFrom (self : AnyArtifactSelector) (state : Any)
  : Status * AnyArtifactSelector :=
  let '(st, s') := @DeserializeFrom _ (held_selector self) (held self) state in
  (st, MkAnyArtifactSelector _ (held_selector self) s').

(** Feeding events to the wrapper. *)
Fixpoint any_select_all (self : AnyArtifactSelector) (evs : list BuildEvent)
  : list (option BazelArtifact) * AnyArtifactSelector :=
  match evs with
  | [] => ([], self)
  | ev :: evs' =>
      let '(r, self') := AnyArtifactSelector_Select self ev in
      let '(rs, self'') := any_select_all self' evs' in
      (r :: rs, self'')
  end.

End Selector.

Module SelectorFixtures.
Import Selector.

(** The options and events of the spec's scenarios A and B. *)
Definition scenario_options : Options :=
  {| file_name_allowlist := fun n => bool_decide (n = "out/foo.kzip");
     output_group_allowlist := fun g => bool_decide (g = "g");
     target_aspect_allowlist := fun _ => true |}.
Definition foo_kzip : BazelArtifactFile :=
  {| local_path := "out/foo.kzip"; uri := "file:///out/foo.kzip" |}.
Definition fs1_event : BuildEvent := NamedSetOfFiles "fs1" [foo_kzip].
Definition xy_event : BuildEvent := TargetCompleted "//x:y" "kythe" true [("g", ["fs1"])].

End SelectorFixtures.

Module DriverFacts.
Import Driver DriverFixtures.

(** ** Every step of the driver only appends to the interaction history. *)
Lemma run_analyzer_extends (out : OutputFunc) (p : AnalyzerProg) :
  forall tr r tr', run_analyzer out p tr = (r, tr') -> exists ext, tr' = tr ++ ext.
Proof.
  induction p as [o k IH | r0]; simpl; intros tr r tr' E.
  - destruct (IH (out tr o) (tr ++ [EvOutput o]) r tr' E) as [ext ->].
    exists (EvOutput o :: ext). by rewrite <- app_assoc.
  - injection E as <- <-. exists []. by rewrite app_nil_r.
Qed.

Lemma analyze_extends d a out cu tr r tr' :
  analyze d a out cu tr = (r, tr') ->
  exists ext, tr' = tr ++ EvAnalyze (request d cu) :: ext.
Proof.
  unfold analyze. intros E.
  destruct (run_analyzer_extends _ _ _ _ _ E) as [ext ->].
  exists ext. by rewrite <- app_assoc.
Qed.

Lemma analysis_step_extends d a out cu tr r tr' :
  analysis_step d a out cu tr = (r, tr') -> exists ext, tr' = tr ++ ext.
Proof.
  unfold analysis_step. destruct (analyze d a out cu tr) as [r1 tr1] eqn:E.
  destruct (analyze_extends _ _ _ _ _ _ _ E) as [ext ->].
  destruct (AnalysisError d), r1; intros H; injection H as <- <-;
    eexists; rewrite <- ?app_assoc; reflexivity.
Qed.

Lemma analysis_loop_extends fuel d a out cu :
  forall err tr r tr', analysis_loop fuel d a out cu err tr = Some (r, tr') ->
  exists ext, tr' = tr ++ ext.
Proof.
  induction fuel as [|fuel IH]; simpl; intros err tr r tr' E; [discriminate|].
  destruct (is_retry err).
  - destruct (analysis_step d a out cu tr) as [err1 tr1] eqn:S1.
    destruct (analysis_step_extends _ _ _ _ _ _ _ S1) as [e1 ->].
    destruct (IH _ _ _ _ E) as [e2 ->]. exists (e1 ++ e2). by rewrite app_assoc.
  - injection E as <- <-. exists []. by rewrite app_nil_r.
Qed.

Lemma teardown_step_extends d cu err tr r tr' :
  teardown_step d cu err tr = (r, tr') -> exists ext, tr' = tr ++ ext.
Proof.
  unfold teardown_step. intros E.
  destruct (Teardown d) as [td|];
    [destruct (td tr cu) as [tErr|]; [destruct err|]|];
    injection E as <- <-; eexists; rewrite <- ?app_assoc; simpl;
    try reflexivity; by rewrite app_nil_r.
Qed.

Lemma compilation_func_extends fuel d a out cu tr r tr' :
  compilation_func fuel d a out cu tr = Some (r, tr') -> exists ext, tr' = tr ++ ext.
Proof.
  unfold compilation_func. intros E.
  assert (Hs : exists e1 v, (match Setup d with
                              | None => (None, tr)
                              | Some s => (s tr cu, tr ++ [EvSetup cu]) end) = (v, tr ++ e1)).
  { destruct (Setup d); do 2 eexists; [reflexivity|]. by rewrite app_nil_r. }
  destruct Hs as (e1 & v & Hs). rewrite Hs in E.
  destruct v as [e|].
  - injection E as <- <-. eauto.
  - destruct (analysis_loop fuel d a out cu (Some ErrRetry) (tr ++ e1)) as [[err tr2]|] eqn:L;
      [|discriminate].
    injection E as E.
    destruct (analysis_loop_extends _ _ _ _ _ _ _ _ _ L) as [e2 ->].
    destruct (teardown_step_extends _ _ _ _ _ _ E) as [e3 ->].
    exists (e1 ++ e2 ++ e3). by rewrite !app_assoc.
Qed.

Lemma next_extends q fuel d a out tr r tr' :
  next q (compilation_func fuel d a out) tr = Some (r, tr') ->
  exists ext, tr' = tr ++ EvNext :: ext.
Proof.
  unfold next. destruct (q tr) as [cu|e]; intros E.
  - destruct (compilation_func_extends _ _ _ _ _ _ _ _ E) as [ext ->].
    exists ext. by rewrite <- app_assoc.
  - injection E as <- <-. exists []. reflexivity.
Qed.

Lemma run_loop_extends fuel d a out q :
  forall tr r tr', run_loop fuel d a out q tr = Some (r, tr') ->
  exists ext, tr' = tr ++ EvNext :: ext.
Proof.
  induction fuel as [|fuel IH]; simpl; intros tr r tr' E; [discriminate|].
  destruct (next q (compilation_func fuel d a out) tr) as [[err tr1]|] eqn:N;
    [|discriminate].
  destruct (next_extends _ _ _ _ _ _ _ _ N) as [e1 ->].
  destruct (is_eof err); [injection E as <- <-; eauto|].
  destruct err as [e|]; [injection E as <- <-; eauto|].
  destruct (IH _ _ _ E) as [e2 ->].
  exists (e1 ++ EvNext :: e2). by rewrite <- app_assoc.
Qed.

Example run_one_item :
  Run 5 (driver_with (Some ok_analyzer) (Some ok_output) None (Some ok_hook) None)
      one_item_queue []
  = Some (None, [EvNext;
                 EvAnalyze {| req_Compilation := 1; req_FileDataService := "fds";
                              req_Revision := "r1" |};
                 EvTeardown cu1; EvNext]).
Proof. reflexivity. Qed.

Example run_retry_twice :
  Run 10 (driver_with (Some (retry_analyzer 2 (fun _ _ => ["out"])))
                      (Some ok_output) None (Some ok_hook) None)
      (queue_of_list [cu1; cu1]) [] <> None.
Proof. vm_compute. congruence. Qed.

(** ** Claims about [Driver.Run]. *)

(** C7: when [queue.Next] reports end of stream on the first call, [Run]
    returns nil and the only interaction was that [Next] call (no Setup,
    Analyze, Output or Teardown); and in general a [Next] call answering
    [io.EOF] ends [Run] with nil while any other error is returned as is. *)
Theorem Run_end_of_stream (fuel : nat) (d : Driver) (q : Queue) (tr : trace) :
  (Analyzer d <> None -> Output d <> None -> q tr = Stop EOF ->
   Run (S fuel) d q tr = Some (None, tr ++ [EvNext])) /\
  (forall a out tr0 e tr',
     next q (compilation_func fuel d a out) tr0 = Some (Some e, tr') ->
     run_loop (S fuel) d a out q tr0 = Some (if is_eof (Some e) then None else Some e, tr')).
Proof.
  split.
  - intros Ha Ho Hq. unfold Run, validate.
    destruct (Analyzer d) as [a|]; [|congruence].
    destruct (Output d) as [out|]; [|congruence].
    simpl. unfold next. by rewrite Hq.
  - intros a out tr0 e tr' N. simpl. rewrite N.
    by destruct e.
Qed.

(** C8: [Run] fails with a configuration error, before any interaction,
    when the Analyzer or the Output function is unset; when both are set,
    the first interaction of [Run] is a [queue.Next] call. *)
Theorem Run_validate (fuel : nat) (d : Driver) (q : Queue) (tr : trace) :
  (Analyzer d = None ->
     Run fuel d q tr = Some (Some (New "missing Analyzer"), tr)) /\
  (Analyzer d <> None -> Output d = None ->
     Run fuel d q tr = Some (Some (New "missing Output function"), tr)) /\
  (Analyzer d <> None -> Output d <> None ->
     forall r tr', Run fuel d q tr = Some (r, tr') -> exists ext, tr' = tr ++ EvNext :: ext).
Proof.
  unfold Run, validate. split; [|split].
  - intros ->. reflexivity.
  - intros Ha ->. destruct (Analyzer d); [reflexivity|congruence].
  - intros Ha Ho r tr'.
    destruct (Analyzer d) as [a|]; [|congruence].
    destruct (Output d) as [out|]; [|congruence].
    apply run_loop_extends.
Qed.

(** C1 (counterexample): a Setup hook that fails ends the item right after
    Setup: the configured Teardown hook is not called. *)
Lemma Setup_failure_skips_teardown :
  Run 5 (driver_with (Some ok_analyzer) (Some ok_output)
                     (Some (failing_hook "boom")) (Some ok_hook) None)
      one_item_queue []
  = Some (Some (Errorf "analysis setup error: boom"), [EvNext; EvSetup cu1]) /\
  count_ev (is_teardown_of cu1) [EvNext; EvSetup cu1] = 0.
Proof. split; reflexivity. Qed.

(** C1 (amended): when the configured Setup hook fails, the item's result is
    the wrapped setup error and the item ends right after the Setup call:
    neither the analyzer, nor Output, nor AnalysisError, nor Teardown is
    invoked for it. *)
Theorem setup_failure_ends_item (fuel : nat) (d : Driver) (a : CompilationAnalyzer)
    (out : OutputFunc) (cu : Compilation) (tr : trace) (s : CompilationFunc) (e : error) :
  Setup d = Some s -> s tr cu = Some e ->
  compilation_func fuel d a out cu tr
  = Some (Some (Errorf ("analysis setup error: " ++ Error e)), tr ++ [EvSetup cu]).
Proof. intros Hs He. unfold compilation_func. by rewrite Hs, He. Qed.

(** C10: the value [Run] reports for an item whose Setup hook fails is a new
    error carrying only the text of the Setup error; a Setup hook answering
    [ErrRetry] makes no retry: the wrapped error ends [Run]. *)
Theorem Run_wraps_setup_error (fuel : nat) (d : Driver) (q : Queue) (tr : trace)
    (cu : Compilation) (s : CompilationFunc) (e : error) :
  Analyzer d <> None -> Output d <> None -> q tr = Item cu ->
  Setup d = Some s -> s (tr ++ [EvNext]) cu = Some e ->
  Run (S fuel) d q tr
  = Some (Some (Errorf ("analysis setup error: " ++ Error e)), tr ++ [EvNext; EvSetup cu]) /\
  is_retry (Some (Errorf ("analysis setup error: " ++ Error e))) = false.
Proof.
  intros Ha Ho Hq Hs He. split; [|reflexivity].
  unfold Run, validate.
  destruct (Analyzer d) as [a|]; [|congruence].
  destruct (Output d) as [out|]; [|congruence].
  simpl. unfold next. rewrite Hq.
  rewrite (setup_failure_ends_item _ _ _ _ _ _ _ _ Hs He).
  by rewrite <- app_assoc.
Qed.

(** C2 (counterexample): an analyzer answering [ErrRetry] has that answer
    passed to the AnalysisError hook; the hook returns nil and the analyzer
    is not invoked again. *)
Lemma retry_goes_through_hook :
  compilation_func 5
    (driver_with (Some retrying_analyzer) (Some ok_output) None None
                 (Some (fun _ _ _ => None)))
    retrying_analyzer ok_output cu1 [EvNext]
  = Some (None, [EvNext;
                 EvAnalyze {| req_Compilation := 1; req_FileDataService := "fds";
                              req_Revision := "r1" |};
                 EvAnalysisError cu1 ErrRetry]).
Proof. reflexivity. Qed.

(** C2 (amended): one round of the retry loop.  The analyzer is invoked on
    the compilation's request; a non-nil result, [ErrRetry] included, is
    replaced by the AnalysisError hook's answer when a hook is configured;
    the analyzer is invoked again exactly when the resulting value is
    [ErrRetry], and otherwise that value ends the loop. *)
Theorem analysis_loop_round (fuel : nat) (d : Driver) (a : CompilationAnalyzer)
    (out : OutputFunc) (cu : Compilation) (tr : trace) (r : option error) (tr1 : trace) :
  analyze d a out cu tr = (r, tr1) ->
  (exists ext, tr1 = tr ++ EvAnalyze (request d cu) :: ext) /\
  analysis_loop (S (S fuel)) d a out cu (Some ErrRetry) tr =
    match AnalysisError d, r with
    | Some h, Some e =>
        if is_retry (h tr1 cu e)
        then analysis_loop (S fuel) d a out cu (Some ErrRetry) (tr1 ++ [EvAnalysisError cu e])
        else Some (h tr1 cu e, tr1 ++ [EvAnalysisError cu e])
    | _, _ =>
        if is_retry r
        then analysis_loop (S fuel) d a out cu (Some ErrRetry) tr1
        else Some (r, tr1)
    end.
Proof.
  intros E. split; [exact (analyze_extends _ _ _ _ _ _ _ E)|].
  cbn [analysis_loop is_retry]. unfold analysis_step. rewrite E.
  destruct (AnalysisError d) as [h|].
  - destruct r as [e|].
    + destruct (h tr1 cu e) as [[]|]; reflexivity.
    + reflexivity.
  - destruct r as [[]|]; reflexivity.
Qed.

(** C3: when the analysis ends with an error (the hook's substitute, if any)
    and Teardown fails too, the item's result is the analysis error and the
    Teardown failure is only logged as a warning; when the analysis ends
    with nil and Teardown fails, the wrapped Teardown error is the result. *)
Theorem teardown_error_precedence (fuel : nat) (d : Driver) (a : CompilationAnalyzer)
    (out : OutputFunc) (cu : Compilation) (tr tr1 tr2 : trace) (err : option error)
    (td : CompilationFunc) (tErr : error) :
  match Setup d with
  | None => tr1 = tr
  | Some s => s tr cu = None /\ tr1 = tr ++ [EvSetup cu]
  end ->
  analysis_loop fuel d a out cu (Some ErrRetry) tr1 = Some (err, tr2) ->
  Teardown d = Some td -> td tr2 cu = Some tErr ->
  compilation_func fuel d a out cu tr =
    match err with
    | Some e => Some (Some e, tr2 ++ [EvTeardown cu; EvLog (teardown_warning tErr e)])
    | None => Some (Some (Errorf ("analysis teardown error: " ++ Error tErr)),
                    tr2 ++ [EvTeardown cu])
    end.
Proof.
  intros Hs L Ht Hte. unfold compilation_func.
  destruct (Setup d) as [s|].
  - destruct Hs as [Hs ->]. rewrite Hs, L.
    unfold teardown_step. rewrite Ht, Hte.
    destruct err; [by rewrite <- app_assoc|reflexivity].
  - subst tr1. rewrite L. unfold teardown_step. rewrite Ht, Hte.
    destruct err; [by rewrite <- app_assoc|reflexivity].
Qed.

(** ** Witnesses: the claims' theorems applied at concrete inputs. *)

Lemma Run_end_of_stream_witness :
  Run 1 d_ok (queue_of_list []) [] = Some (None, [] ++ [EvNext]) /\
  next (fun _ => Stop (New "qerr")) (compilation_func 0 d_ok ok_analyzer ok_output) []
    = Some (Some (New "qerr"), [EvNext]) /\
  run_loop 1 d_ok ok_analyzer ok_output (fun _ => Stop (New "qerr")) []
    = Some (Some (New "qerr"), [EvNext]).
Proof.
  assert (Ha : Analyzer d_ok <> None) by discriminate.
  assert (Ho : Output d_ok <> None) by discriminate.
  assert (Hq : queue_of_list [] [] = Stop EOF) by reflexivity.
  assert (N : next (fun _ => Stop (New "qerr")) (compilation_func 0 d_ok ok_analyzer ok_output) []
              = Some (Some (New "qerr"), [EvNext])) by reflexivity.
  split; [exact (proj1 (Run_end_of_stream 0 d_ok (queue_of_list []) []) Ha Ho Hq)|].
  split; [exact N|].
  exact (proj2 (Run_end_of_stream 0 d_ok (fun _ => Stop (New "qerr")) [])
           ok_analyzer ok_output [] (New "qerr") [EvNext] N).
Defined.

Lemma Run_validate_witness :
  Run 3 (driver_with None (Some ok_output) None None None) one_item_queue []
    = Some (Some (New "missing Analyzer"), []) /\
  Run 3 (driver_with (Some ok_analyzer) None None None None) one_item_queue []
    = Some (Some (New "missing Output function"), []) /\
  (exists ext, [EvNext; EvAnalyze (request d_ok cu1); EvTeardown cu1; EvNext]
               = [] ++ EvNext :: ext).
Proof.
  split.
  { exact (proj1 (Run_validate 3 (driver_with None (Some ok_output) None None None)
                    one_item_queue []) eq_refl). }
  split.
  { exact (proj1 (proj2 (Run_validate 3 (driver_with (Some ok_analyzer) None None None None)
                           one_item_queue [])) ltac:(discriminate) eq_refl). }
  exact (proj2 (proj2 (Run_validate 5 d_ok one_item_queue []))
           ltac:(discriminate) ltac:(discriminate) None _ eq_refl).
Defined.

Lemma setup_failure_ends_item_witness :
  Setup d_setup_fails = Some (failing_hook "boom") /\
  failing_hook "boom" [] cu1 = Some (New "boom") /\
  compilation_func 3 d_setup_fails ok_analyzer ok_output cu1 []
  = Some (Some (Errorf ("analysis setup error: " ++ Error (New "boom"))), [] ++ [EvSetup cu1]).
Proof.
  split; [reflexivity|]. split; [reflexivity|].
  exact (setup_failure_ends_item 3 d_setup_fails ok_analyzer ok_output cu1 []
           (failing_hook "boom") (New "boom") eq_refl eq_refl).
Defined.

Lemma Run_wraps_setup_error_witness :
  one_item_queue [] = Item cu1 /\
  Run 3 d_setup_fails one_item_queue []
  = Some (Some (Errorf ("analysis setup error: " ++ Error (New "boom"))),
          [] ++ [EvNext; EvSetup cu1]).
Proof.
  split; [reflexivity|].
  exact (proj1 (Run_wraps_setup_error 2 d_setup_fails one_item_queue [] cu1
                  (failing_hook "boom") (New "boom")
                  ltac:(discriminate) ltac:(discriminate) eq_refl eq_refl eq_refl)).
Defined.

Lemma analysis_loop_round_witness :
  analyze d_ok ok_analyzer ok_output cu1 [] = (None, [EvAnalyze (request d_ok cu1)]) /\
  analysis_loop 3 d_ok ok_analyzer ok_output cu1 (Some ErrRetry) []
  = Some (None, [EvAnalyze (request d_ok cu1)]).
Proof.
  split; [reflexivity|].
  apply (analysis_loop_round 1 d_ok ok_analyzer ok_output cu1 [] None). reflexivity.
Defined.

Lemma teardown_error_precedence_witness :
  analysis_loop 3 d_both_fail bad_analyzer ok_output cu1 (Some ErrRetry) []
    = Some (Some (New "bad"), [EvAnalyze (request d_both_fail cu1)]) /\
  compilation_func 3 d_both_fail bad_analyzer ok_output cu1 []
  = Some (Some (New "bad"),
          [EvAnalyze (request d_both_fail cu1)] ++
          [EvTeardown cu1; EvLog (teardown_warning (New "td") (New "bad"))]).
Proof.
  split; [reflexivity|].
  apply (teardown_error_precedence 3 d_both_fail bad_analyzer ok_output cu1 [] []
           [EvAnalyze (request d_both_fail cu1)] (Some (New "bad")) (failing_hook "td"));
    reflexivity.
Defined.

End DriverFacts.

Module RetryCounting.
Import Driver DriverFixtures.

Local Abbreviation no_next l := (Forall (fun ev => is_next ev = false) l).

(** ** Reading traces built by appending. *)
Lemma count_ev_app (p : event -> bool) (l1 l2 : trace) :
  count_ev p (l1 ++ l2) = count_ev p l1 + count_ev p l2.
Proof. induction l1 as [|ev l1 IH]; simpl; [done|]. rewrite IH. lia. Qed.

Lemma count_ev_outputs (p : event -> bool) (os : list AnalysisOutput) :
  (forall o, p (EvOutput o) = false) -> count_ev p (map EvOutput os) = 0.
Proof. intros Hp. induction os as [|o os IH]; simpl; [done|]. by rewrite Hp, IH. Qed.

Lemma no_next_outputs (os : list AnalysisOutput) : no_next (map EvOutput os).
Proof. induction os; simpl; constructor; auto. Qed.

Lemma count_ev_no_next (l : trace) : no_next l -> count_ev is_next l = 0.
Proof. induction 1 as [|ev l H _ IH]; simpl; [done|]. by rewrite H, IH. Qed.

Lemma segment_no_next_app (l1 l2 : trace) :
  no_next l1 -> segment (l1 ++ l2) = l1 ++ segment l2.
Proof.
  induction 1 as [|ev l1 H _ IH]; simpl; [done|].
  destruct ev; simpl in H; try discriminate; by rewrite IH.
Qed.

Lemma segment_app_next (t u : trace) : segment (t ++ EvNext :: u) = segment t.
Proof. induction t as [|ev t IH]; simpl; [done|]. destruct ev; by rewrite ?IH. Qed.

Lemma items_no_next (l : trace) : no_next l -> items l = [].
Proof.
  induction 1 as [|ev l H _ IH]; simpl; [done|].
  destruct ev; simpl in H; try discriminate; exact IH.
Qed.

Lemma items_app_next (tr ext : trace) :
  no_next ext -> items (tr ++ EvNext :: ext) = items tr ++ [ext].
Proof.
  intros Hext. induction tr as [|ev tr IH]; simpl.
  - rewrite items_no_next by done.
    rewrite <- (app_nil_r ext) at 1. rewrite segment_no_next_app by done.
    simpl. by rewrite app_nil_r.
  - destruct ev; rewrite ?IH; try done.
    by rewrite segment_app_next.
Qed.

Lemma items_app_blocks (tr : trace) (exts : list trace) :
  Forall (fun e => no_next e) exts ->
  items (tr ++ concat (map (fun e => EvNext :: e) exts)) = items tr ++ exts.
Proof.
  intros H. revert tr. induction H as [|e exts He _ IH]; intros tr; simpl.
  - by rewrite !app_nil_r.
  - rewrite app_comm_cons, app_assoc, IH, items_app_next by done.
    by rewrite <- app_assoc.
Qed.

Lemma since_next_app (tr ext : trace) :
  no_next ext -> since_next (tr ++ EvNext :: ext) = ext.
Proof.
  intros Hext. unfold since_next.
  rewrite rev_app_distr. simpl. rewrite <- app_assoc.
  rewrite segment_no_next_app by (by apply Forall_rev).
  simpl. by rewrite app_nil_r, rev_involutive.
Qed.

Lemma run_analyzer_emit_all (out : OutputFunc) (os : list AnalysisOutput) :
  forall r tr, run_analyzer out (emit_all os r) tr = (r, tr ++ map EvOutput os).
Proof.
  induction os as [|o os IH]; intros r tr; simpl.
  - by rewrite app_nil_r.
  - rewrite IH. by rewrite <- app_assoc.
Qed.

(** ** One item, then the whole queue, under the retrying analyzer. *)
Section Retrying.
Variable K : nat.
Variable os : trace -> AnalysisRequest -> list AnalysisOutput.
Variable d : Driver.
Variable out : OutputFunc.
Hypothesis no_hook : AnalysisError d = None.

Local Abbreviation a := (retry_analyzer K os).

Lemma analyze_retrying (cu : Compilation) (tr0 ext : trace) :
  no_next ext ->
  analyze d a out cu (tr0 ++ EvNext :: ext)
  = (if count_ev (is_analyze_of (request d cu)) ext <? K then Some ErrRetry else None,
     tr0 ++ EvNext :: ext ++ EvAnalyze (request d cu)
         :: map EvOutput (os (tr0 ++ EvNext :: ext) (request d cu))).
Proof.
  intros Hext. unfold analyze, retry_analyzer.
  rewrite since_next_app, run_analyzer_emit_all by done.
  f_equal. by rewrite <- !app_assoc.
Qed.

Lemma retry_loop_count (cu : Compilation) (m : nat) :
  forall fuel tr0 ext,
  no_next ext ->
  count_ev (is_analyze_of (request d cu)) ext + m = K ->
  m + 2 <= fuel ->
  exists ext', no_next ext' /\
    count_ev (is_analyze_of (request d cu)) ext' = S m /\
    count_ev (is_teardown_of cu) ext' = 0 /\
    analysis_loop fuel d a out cu (Some ErrRetry) (tr0 ++ EvNext :: ext)
    = Some (None, tr0 ++ EvNext :: ext ++ ext').
Proof.
  induction m as [|m IH]; intros fuel tr0 ext Hext Hcount Hfuel;
    (destruct fuel as [|fuel]; [lia|]);
    cbn [analysis_loop is_retry]; unfold analysis_step;
    rewrite analyze_retrying by done; rewrite no_hook;
    set (ext1 := EvAnalyze (request d cu)
                   :: map EvOutput (os (tr0 ++ EvNext :: ext) (request d cu)));
    assert (Hn1 : no_next ext1) by (constructor; [done|apply no_next_outputs]);
    assert (Hc1 : count_ev (is_analyze_of (request d cu)) ext1 = 1)
      by (subst ext1; simpl; rewrite bool_decide_eq_true_2 by done;
          by rewrite count_ev_outputs);
    assert (Ht1 : count_ev (is_teardown_of cu) ext1 = 0)
      by (subst ext1; simpl; by rewrite count_ev_outputs).
  - replace (count_ev (is_analyze_of (request d cu)) ext <? K) with false
      by (symmetry; apply Nat.ltb_ge; lia).
    destruct fuel as [|fuel]; [lia|]. cbn [analysis_loop is_retry].
    exists ext1. done.
  - replace (count_ev (is_analyze_of (request d cu)) ext <? K) with true
      by (symmetry; apply Nat.ltb_lt; lia).
    destruct (IH fuel tr0 (ext ++ ext1)) as (ext2 & Hn2 & Hc2 & Ht2 & E2).
    + by apply Forall_app.
    + rewrite count_ev_app. lia.
    + lia.
    + exists (ext1 ++ ext2). split; [by apply Forall_app|].
      rewrite !count_ev_app. split; [lia|]. split; [lia|].
      replace (tr0 ++ EvNext :: ext ++ ext1) with (tr0 ++ EvNext :: (ext ++ ext1))
        in * by done.
      change (EvAnalyze (request d cu)
               :: map EvOutput (os (tr0 ++ EvNext :: ext) (request d cu))) with ext1.
      rewrite <- app_assoc in E2. exact E2.
Qed.

Hypothesis setup_ok :
  Setup d = None \/ exists s, Setup d = Some s /\ forall tr cu, s tr cu = None.
Variable td : CompilationFunc.
Hypothesis teardown_set : Teardown d = Some td.
Hypothesis teardown_ok : forall tr cu, td tr cu = None.

Lemma retry_item (cu : Compilation) (fuel : nat) (tr0 : trace) :
  K + 2 <= fuel ->
  exists ext, no_next ext /\
    count_ev (is_analyze_of (request d cu)) ext = K + 1 /\
    count_ev (is_teardown_of cu) ext = 1 /\
    compilation_func fuel d a out cu (tr0 ++ [EvNext]) = Some (None, tr0 ++ EvNext :: ext).
Proof.
  intros Hfuel.
  assert (Tail : forall ext0, no_next ext0 ->
            count_ev (is_analyze_of (request d cu)) ext0 = 0 ->
            count_ev (is_teardown_of cu) ext0 = 0 ->
            exists ext, no_next ext /\
              count_ev (is_analyze_of (request d cu)) ext = K + 1 /\
              count_ev (is_teardown_of cu) ext = 1 /\
              match analysis_loop fuel d a out cu (Some ErrRetry) (tr0 ++ EvNext :: ext0) with
              | Some (err, tr2) => Some (teardown_step d cu err tr2)
              | None => None
              end = Some (None, tr0 ++ EvNext :: ext)).
  { intros ext0 Hn0 Hc0 Ht0.
    destruct (retry_loop_count cu K fuel tr0 ext0) as (ext1 & Hn1 & Hc1 & Ht1 & E1);
      [done|lia|lia|].
    rewrite E1. unfold teardown_step. rewrite teardown_set, teardown_ok.
    exists (ext0 ++ ext1 ++ [EvTeardown cu]).
    split; [repeat apply Forall_app_2; by repeat constructor|].
    rewrite !count_ev_app. simpl. rewrite bool_decide_eq_true_2 by done.
    split; [lia|]. split; [lia|].
    rewrite <- app_assoc. simpl. by rewrite <- app_assoc. }
  unfold compilation_func.
  destruct setup_ok as [Hs | (s & Hs & Hsok)]; rewrite Hs; [|rewrite Hsok];
    cbv beta iota zeta.
  - exact (Tail [] ltac:(done) eq_refl eq_refl).
  - rewrite <- app_assoc. exact (Tail [EvSetup cu] ltac:(by repeat constructor) eq_refl eq_refl).
Qed.

Variable cus : list Compilation.

Lemma retry_run_loop (n : nat) :
  forall fuel tr,
  count_ev is_next tr + n = length cus -> n + K + 2 <= fuel ->
  exists exts, length exts = n /\ Forall (fun e => no_next e) exts /\
    (forall j cu seg, cus !! (count_ev is_next tr + j) = Some cu -> exts !! j = Some seg ->
       count_ev (is_analyze_of (request d cu)) seg = K + 1 /\
       count_ev (is_teardown_of cu) seg = 1) /\
    run_loop fuel d a out (queue_of_list cus) tr
    = Some (None, tr ++ concat (map (fun e => EvNext :: e) exts) ++ [EvNext]).
Proof.
  induction n as [|n IH]; intros fuel tr Hlen Hfuel;
    (destruct fuel as [|fuel]; [lia|]); cbn [run_loop]; unfold next.
  - replace (queue_of_list cus tr) with (Stop EOF)
      by (unfold queue_of_list; by rewrite lookup_ge_None_2 by lia).
    exists [].
    split; [done|]. split; [done|]. split; [intros ? ? ? _ Hs; done|]. done.
  - destruct (lookup_lt_is_Some_2 cus (count_ev is_next tr)) as [cu Hcu]; [lia|].
    replace (queue_of_list cus tr) with (Item cu) by (unfold queue_of_list; by rewrite Hcu).
    destruct (retry_item cu fuel tr) as (ext & Hn & Hc & Ht & E); [lia|].
    rewrite E. cbn [is_eof].
    assert (Hnext : count_ev is_next (tr ++ EvNext :: ext) = count_ev is_next tr + 1).
    { rewrite count_ev_app. simpl. rewrite (count_ev_no_next ext Hn). lia. }
    destruct (IH fuel (tr ++ EvNext :: ext)) as (exts & Hl & Hns & Hcs & E2); [lia|lia|].
    exists (ext :: exts). split; [simpl; lia|]. split; [by constructor|]. split.
    + intros [|j] cu' seg Hj Hseg; simpl in Hseg.
      * rewrite Nat.add_0_r, Hcu in Hj. injection Hj as <-. injection Hseg as <-. done.
      * apply (Hcs j); [|done]. rewrite Hnext.
        by replace (count_ev is_next tr + 1 + j) with (count_ev is_next tr + S j) by lia.
    + rewrite E2. simpl. by rewrite <- !app_assoc.
Qed.

End Retrying.

(** C4: for a queue yielding the compilations [cus] and an analyzer that
    answers [ErrRetry] [K] times for each compilation and then succeeds,
    with no AnalysisError hook (and Setup, Teardown succeeding), [Run]
    returns nil; the events of the i-th item hold exactly [K + 1] calls of
    the analyzer on that compilation and exactly one Teardown call for it. *)
Theorem Run_retry_counting (cus : list Compilation) (K : nat)
    (os : trace -> AnalysisRequest -> list AnalysisOutput) (d : Driver)
    (out : OutputFunc) (td : CompilationFunc) (fuel : nat) :
  Analyzer d = Some (retry_analyzer K os) -> Output d = Some out ->
  AnalysisError d = None ->
  (Setup d = None \/ exists s, Setup d = Some s /\ forall tr cu, s tr cu = None) ->
  Teardown d = Some td -> (forall tr cu, td tr cu = None) ->
  length cus + K + 2 <= fuel ->
  exists tr, Run fuel d (queue_of_list cus) [] = Some (None, tr) /\
    length (items tr) = S (length cus) /\
    forall i cu seg, cus !! i = Some cu -> items tr !! i = Some seg ->
      count_ev (is_analyze_of (request d cu)) seg = K + 1 /\
      count_ev (is_teardown_of cu) seg = 1.
Proof.
  intros Ha Ho Hh Hs Ht Htok Hfuel.
  destruct (retry_run_loop K os d out Hh Hs td Ht Htok cus (length cus) fuel [])
    as (exts & Hl & Hns & Hcs & E); [done|lia|].
  eexists. unfold Run, validate. rewrite Ha, Ho. split; [exact E|].
  rewrite app_assoc, items_app_next, items_app_blocks by done. simpl.
  split; [rewrite length_app; simpl; unfold trace in *; lia|].
  intros i cu seg Hcu Hseg.
  rewrite lookup_app_l in Hseg by (apply lookup_lt_Some in Hcu; unfold trace in *; lia).
  exact (Hcs i cu seg Hcu Hseg).
Qed.

Lemma Run_retry_counting_witness :
  exists tr, Run 6 d_retrying (queue_of_list two_items) [] = Some (None, tr) /\
    length (items tr) = 3 /\
    forall i cu seg, two_items !! i = Some cu -> items tr !! i = Some seg ->
      count_ev (is_analyze_of (request d_retrying cu)) seg = 3 /\
      count_ev (is_teardown_of cu) seg = 1.
Proof.
  exact (Run_retry_counting two_items 2 (fun _ _ => ["out"]) d_retrying
           (fun _ _ => None) (fun _ _ => None) 6 eq_refl eq_refl eq_refl
           (or_introl eq_refl) eq_refl (fun _ _ => eq_refl) ltac:(simpl; lia)).
Defined.

End RetryCounting.

Module SelectorFacts.
Import Selector SelectorFixtures.

(** C9: the ExtraActionSelector keeps the base class's [SerializeInto] and
    [DeserializeFrom]: serialization answers false and leaves the state blob
    as it was, deserialization answers "unimplemented" whatever the blob. *)
Theorem ExtraActionSelector_stateless (sel : ExtraActionSelector) (blob : Any) :
  SerializeInto sel blob = (false, blob) /\
  DeserializeFrom sel blob = (UnimplementedError "stateless selector", sel).
Proof. split; reflexivity. Qed.

(** C5: serializing any selector state and restoring it into a fresh
    selector built with the same options succeeds, and the restored selector
    answers every later event sequence exactly as the original does. *)
Theorem serialize_restore_same_outputs (sel : AspectArtifactSelector) (blob : Any)
    (evs : list BuildEvent) :
  SerializeInto sel blob = (true, (SerializeInto sel blob).2) /\
  exists sel',
    DeserializeFrom (make_aspect_selector (options_ sel)) (SerializeInto sel blob).2
      = (OkStatus, sel') /\
    (select_all sel' evs).1 = (select_all sel evs).1.
Proof.
  split; [reflexivity|].
  exists sel. split; [|reflexivity].
  destruct sel as [o [D F P]].
  cbn [SerializeInto DeserializeFrom AspectArtifactSelector_selector].
  unfold AspectArtifactSelector_SerializeInto, AspectArtifactSelector_DeserializeFrom.
  cbn [type_url value state_ disposed filesets pending snd].
  rewrite bool_decide_eq_true_2 by reflexivity. cbn [negb].
  unfold with_state, make_aspect_selector. cbn [options_ proto_disposed proto_filesets proto_pending].
  by rewrite list_to_set_elements_L, !list_to_map_to_list.
Qed.

(** ** One step of the aspect selector in each situation. *)
Lemma SelectFileSet_claimed (self : AspectArtifactSelector) (id tgt : string)
    (fs : list BazelArtifactFile) :
  id ∉ disposed (state_ self) -> pending (state_ self) !! id = Some tgt ->
  SelectFileSet self id fs =
    (Some {| label := tgt;
             files := filter (fun f => file_name_allowlist (options_ self) (local_path f) = true) fs |},
     with_state self {| disposed := {[id]} ∪ disposed (state_ self);
                        filesets := filesets (state_ self);
                        pending := delete id (pending (state_ self)) |}).
Proof.
  intros Hd Hp. unfold SelectFileSet.
  rewrite bool_decide_eq_false_2 by exact Hd. by rewrite Hp.
Qed.

Lemma SelectFileSet_stored (self : AspectArtifactSelector) (id : string)
    (fs : list BazelArtifactFile) :
  id ∉ disposed (state_ self) -> pending (state_ self) !! id = None ->
  SelectFileSet self id fs =
    (None,
     with_state self {| disposed := disposed (state_ self);
                        filesets := <[id := filter (fun f => file_name_allowlist (options_ self) (local_path f) = true) fs]>
                                      (filesets (state_ self));
                        pending := pending (state_ self) |}).
Proof.
  intros Hd Hp. unfold SelectFileSet.
  rewrite bool_decide_eq_false_2 by exact Hd. by rewrite Hp.
Qed.

Lemma claim_fileset_known (tgt id : string) (st : State) (kept : list BazelArtifactFile) :
  id ∉ disposed st -> filesets st !! id = Some kept ->
  claim_fileset tgt (None, st) id =
    (Some {| label := tgt; files := kept |},
     {| disposed := {[id]} ∪ disposed st; filesets := delete id (filesets st);
        pending := pending st |}).
Proof.
  intros Hd Hf. unfold claim_fileset.
  rewrite bool_decide_eq_false_2 by exact Hd. by rewrite Hf.
Qed.

Lemma claim_fileset_unknown (tgt id : string) (st : State) :
  id ∉ disposed st -> filesets st !! id = None ->
  claim_fileset tgt (None, st) id =
    (None, {| disposed := disposed st; filesets := filesets st;
              pending := <[id := tgt]> (pending st) |}).
Proof.
  intros Hd Hf. unfold claim_fileset.
  rewrite bool_decide_eq_false_2 by exact Hd. by rewrite Hf.
Qed.

Lemma SelectTargetCompleted_single (self : AspectArtifactSelector) (tgt aspect g id : string) :
  target_aspect_allowlist (options_ self) aspect = true ->
  output_group_allowlist (options_ self) g = true ->
  SelectTargetCompleted self tgt aspect true [(g, [id])] =
    let '(found, st) := claim_fileset tgt (None, state_ self) id in
    (found, with_state self st).
Proof.
  intros Ha Hg. unfold SelectTargetCompleted.
  rewrite Ha. cbn [negb orb].
  rewrite filter_cons_True by exact Hg. rewrite filter_nil. reflexivity.
Qed.

(** C6: a matching (target, fileset) pair yields one and the same artifact in
    either event order, and leaves the fileset id disposed with nothing
    pending. *)
Theorem order_independence (o : Options) (id tgt aspect g : string)
    (fs : list BazelArtifactFile) :
  target_aspect_allowlist o aspect = true -> output_group_allowlist o g = true ->
  let art := {| label := tgt;
                files := filter (fun f => file_name_allowlist o (local_path f) = true) fs |} in
  let fwd := select_all (make_aspect_selector o)
               [NamedSetOfFiles id fs; TargetCompleted tgt aspect true [(g, [id])]] in
  let bwd := select_all (make_aspect_selector o)
               [TargetCompleted tgt aspect true [(g, [id])]; NamedSetOfFiles id fs] in
  (fwd.1 = [None; Some art] /\ id ∈ disposed (state_ fwd.2) /\ pending (state_ fwd.2) = ∅) /\
  (bwd.1 = [None; Some art] /\ id ∈ disposed (state_ bwd.2) /\ pending (state_ bwd.2) = ∅).
Proof.
  intros Ha Hg. cbv zeta.
  cbn [select_all Select AspectArtifactSelector_selector AspectArtifactSelector_Select].
  split.
  - rewrite SelectFileSet_stored by (simpl; first [apply lookup_empty | set_solver]).
    rewrite SelectTargetCompleted_single by done.
    rewrite (claim_fileset_known tgt id _
               (filter (fun f => file_name_allowlist o (local_path f) = true) fs)) by (simpl; first [apply lookup_insert_eq | set_solver]).
    simpl. split; [reflexivity|]. split; [set_solver|reflexivity].
  - rewrite SelectTargetCompleted_single by done.
    rewrite claim_fileset_unknown by (simpl; first [apply lookup_empty | set_solver]).
    rewrite (SelectFileSet_claimed _ id tgt) by (simpl; first [apply lookup_insert_eq | set_solver]).
    simpl. split; [reflexivity|]. split; [set_solver|].
    by rewrite delete_insert_eq, delete_empty.
Qed.

Lemma order_independence_witness :
  target_aspect_allowlist scenario_options "kythe" = true /\
  output_group_allowlist scenario_options "g" = true /\
  (select_all (make_aspect_selector scenario_options) [fs1_event; xy_event]).1
    = [None; Some {| label := "//x:y"; files := [foo_kzip] |}] /\
  (select_all (make_aspect_selector scenario_options) [xy_event; fs1_event]).1
    = [None; Some {| label := "//x:y"; files := [foo_kzip] |}].
Proof.
  destruct (order_independence scenario_options "fs1" "//x:y" "kythe" "g" [foo_kzip]
              eq_refl eq_refl) as [[F _] [B _]].
  split; [reflexivity|]. split; [reflexivity|].
  split; [exact F | exact B].
Defined.

End SelectorFacts.

Module ExtraFacts.
Import Driver DriverFixtures.

(** ** Shapes of the events of one item. *)
Lemma run_analyzer_only_outputs (out : OutputFunc) (p : AnalyzerProg) :
  forall tr r tr', run_analyzer out p tr = (r, tr') ->
  exists os, tr' = tr ++ map EvOutput os.
Proof.
  induction p as [o k IH | r0]; simpl; intros tr r tr' E.
  - destruct (IH (out tr o) (tr ++ [EvOutput o]) r tr' E) as [os ->].
    exists (o :: os). by rewrite <- app_assoc.
  - injection E as <- <-. exists []. by rewrite app_nil_r.
Qed.

Local Abbreviation body d cu :=
  (fun ev => concerns d cu ev /\ is_teardown ev = false).

Lemma outputs_body d cu os : Forall (body d cu) (map EvOutput os).
Proof. induction os; constructor; simpl; auto. Qed.

Lemma analysis_step_body d a out cu tr r tr' :
  analysis_step d a out cu tr = (r, tr') ->
  exists ext, tr' = tr ++ ext /\ Forall (body d cu) ext.
Proof.
  unfold analysis_step, analyze.
  destruct (run_analyzer out (a tr (request d cu)) (tr ++ [EvAnalyze (request d cu)]))
    as [r1 tr1] eqn:E.
  destruct (run_analyzer_only_outputs _ _ _ _ _ E) as [os ->].
  destruct (AnalysisError d), r1; intros H; injection H as <- <-.
  all: first
    [ exists (EvAnalyze (request d cu) :: map EvOutput os ++ [EvAnalysisError cu e]);
      split; [by rewrite <- !app_assoc|];
      constructor; [simpl; auto|];
      apply Forall_app; split; [apply outputs_body|]; constructor; simpl; auto
    | exists (EvAnalyze (request d cu) :: map EvOutput os);
      split; [by rewrite <- !app_assoc|];
      constructor; [simpl; auto|apply outputs_body] ].
Qed.

Lemma analysis_loop_body fuel d a out cu :
  forall err tr r tr', analysis_loop fuel d a out cu err tr = Some (r, tr') ->
  exists ext, tr' = tr ++ ext /\ Forall (body d cu) ext.
Proof.
  induction fuel as [|fuel IH]; simpl; intros err tr r tr' E; [discriminate|].
  destruct (is_retry err).
  - destruct (analysis_step d a out cu tr) as [err1 tr1] eqn:S1.
    destruct (analysis_step_body _ _ _ _ _ _ _ S1) as (e1 & -> & F1).
    destruct (IH _ _ _ _ E) as (e2 & -> & F2).
    exists (e1 ++ e2). split; [by rewrite app_assoc|]. by apply Forall_app.
  - injection E as <- <-. exists []. split; [by rewrite app_nil_r|constructor].
Qed.

Lemma analysis_loop_not_retry fuel d a out cu :
  forall err tr r tr', analysis_loop fuel d a out cu err tr = Some (r, tr') ->
  is_retry r = false.
Proof.
  induction fuel as [|fuel IH]; simpl; intros err tr r tr' E; [discriminate|].
  destruct (is_retry err) eqn:R.
  - destruct (analysis_step d a out cu tr) as [err1 tr1]. exact (IH _ _ _ _ E).
  - by injection E as <- <-.
Qed.

Local Abbreviation teardown_shape cu post :=
  (post = [] \/ post = [EvTeardown cu] \/ exists m, post = [EvTeardown cu; EvLog m]).

Lemma teardown_step_shape d cu err tr r tr' :
  teardown_step d cu err tr = (r, tr') ->
  exists post, tr' = tr ++ post /\ teardown_shape cu post /\
    (Teardown d <> None -> post <> []) /\
    (is_retry err = false -> is_retry r = false).
Proof.
  unfold teardown_step. intros E.
  destruct (Teardown d) as [td|] eqn:T.
  - destruct (td tr cu) as [tErr|]; [destruct err as [e|]|];
      injection E as <- <-.
    + exists [EvTeardown cu; EvLog (teardown_warning tErr e)].
      split; [by rewrite <- app_assoc|]. split; [eauto|]. split; [done|auto].
    + exists [EvTeardown cu]. split; [done|]. split; [auto|]. split; [done|auto].
    + exists [EvTeardown cu]. split; [done|]. split; [auto|]. split; [done|auto].
  - injection E as <- <-. exists []. split; [by rewrite app_nil_r|].
    split; [auto|]. split; [congruence|auto].
Qed.

(** Everything one [CompilationFunc] call does, in order: events about [cu]
    with no [Teardown] among them, then at most one [Teardown] of [cu],
    possibly followed by the warning log. *)
Lemma compilation_func_shape fuel d a out cu tr r tr' :
  compilation_func fuel d a out cu tr = Some (r, tr') ->
  exists pre post, tr' = tr ++ pre ++ post /\ Forall (body d cu) pre /\
    teardown_shape cu post /\
    (Teardown d <> None -> (forall s, Setup d = Some s -> s tr cu = None) -> post <> []) /\
    is_retry r = false.
Proof.
  unfold compilation_func. intros E.
  assert (Hs : exists e1 v, (match Setup d with
                              | None => (None, tr)
                              | Some s => (s tr cu, tr ++ [EvSetup cu]) end) = (v, tr ++ e1)
            /\ Forall (body d cu) e1
            /\ ((forall s, Setup d = Some s -> s tr cu = None) -> v = None)).
  { destruct (Setup d) as [s|].
    - exists [EvSetup cu], (s tr cu). split; [done|]. split.
      + constructor; simpl; auto.
      + intros H. by apply H.
    - exists [], None. by rewrite app_nil_r. }
  destruct Hs as (e1 & v & Hs & F1 & V). rewrite Hs in E.
  destruct v as [e|].
  - injection E as <- <-. exists e1, [].
    split; [by rewrite app_nil_r|]. split; [done|]. split; [auto|].
    split; [|done]. intros _ Hok. by discriminate (V Hok).
  - destruct (analysis_loop fuel d a out cu (Some ErrRetry) (tr ++ e1)) as [[err tr2]|] eqn:L;
      [|discriminate].
    injection E as E.
    destruct (analysis_loop_body _ _ _ _ _ _ _ _ _ L) as (e2 & -> & F2).
    pose proof (analysis_loop_not_retry _ _ _ _ _ _ _ _ _ L) as NR.
    destruct (teardown_step_shape _ _ _ _ _ _ E) as (post & -> & Sh & Td & NR').
    exists (e1 ++ e2), post. split; [by rewrite !app_assoc|].
    split; [by apply Forall_app|]. split; [done|]. split; [auto|]. auto.
Qed.

Lemma run_loop_retry fuel d a out q :
  forall tr tr', run_loop fuel d a out q tr = Some (Some ErrRetry, tr') ->
  exists tr0, q tr0 = Stop ErrRetry /\ tr' = tr0 ++ [EvNext] /\ exists ext, tr0 = tr ++ ext.
Proof.
  induction fuel as [|fuel IH]; simpl; intros tr tr' E; [discriminate|].
  destruct (next q (compilation_func fuel d a out) tr) as [[err tr1]|] eqn:N;
    [|discriminate].
  destruct (is_eof err) eqn:EOFb; [discriminate|].
  destruct err as [e|].
  - injection E as -> ->. unfold next in N.
    destruct (q tr) as [cu|e] eqn:Q.
    + destruct (compilation_func_shape _ _ _ _ _ _ _ _ N) as (_ & _ & _ & _ & _ & _ & R).
      discriminate R.
    + injection N as -> <-. exists tr. split; [done|]. split; [done|].
      exists []. by rewrite app_nil_r.
  - destruct (DriverFacts.next_extends _ _ _ _ _ _ _ _ N) as [e1 ->].
    destruct (IH _ _ E) as (tr0 & Q & -> & ext & ->).
    exists ((tr ++ EvNext :: e1) ++ ext). split; [done|]. split; [done|].
    exists (EvNext :: e1 ++ ext). by rewrite <- !app_assoc.
Qed.

(** X1. After [Apply], [Run] only rejects a driver for a missing analyzer:
    [Apply] always installs [Output], and keeps the [Analyzer]. *)
Theorem Apply_then_Run fuel d io q tr :
  (Analyzer d = None ->
   Run fuel (Apply d io) q tr = Some (Some (New "missing Analyzer"%string), tr)) /\
  (forall a, Analyzer d = Some a ->
   Run fuel (Apply d io) q tr = run_loop fuel (Apply d io) a (IO_Output io) q tr).
Proof.
  unfold Run, validate, Apply; simpl. split.
  - by intros ->.
  - intros a0 ->. reflexivity.
Qed.

Lemma Apply_then_Run_witness :
  Run 3 (Apply (driver_with None (Some ok_output) None None None)
               {| IO_Setup := fun _ _ => None; IO_Output := ok_output;
                  IO_Teardown := fun _ _ => None; IO_AnalysisError := fun _ _ e => Some e |})
      one_item_queue [] = Some (Some (New "missing Analyzer"%string), []) /\
  Run 3 (Apply (driver_with (Some ok_analyzer) (Some ok_output) None None None)
               {| IO_Setup := fun _ _ => None; IO_Output := ok_output;
                  IO_Teardown := fun _ _ => None; IO_AnalysisError := fun _ _ e => Some e |})
      one_item_queue [] =
  run_loop 3 (Apply (driver_with (Some ok_analyzer) (Some ok_output) None None None)
               {| IO_Setup := fun _ _ => None; IO_Output := ok_output;
                  IO_Teardown := fun _ _ => None; IO_AnalysisError := fun _ _ e => Some e |})
      ok_analyzer ok_output one_item_queue [].
Proof.
  split.
  - exact (proj1 (Apply_then_Run 3 (driver_with None (Some ok_output) None None None) _
                    one_item_queue []) eq_refl).
  - exact (proj2 (Apply_then_Run 3 (driver_with (Some ok_analyzer) (Some ok_output) None None None) _
                    one_item_queue []) ok_analyzer eq_refl).
Defined.

(** X2. One item never ends in [ErrRetry]: the retry loop only exits on
    another result, and Setup and Teardown failures are wrapped. *)
Theorem item_never_retry fuel d a out cu tr r tr' :
  compilation_func fuel d a out cu tr = Some (r, tr') -> r <> Some ErrRetry.
Proof.
  intros E. destruct (compilation_func_shape _ _ _ _ _ _ _ _ E) as (_ & _ & _ & _ & _ & _ & R).
  by intros ->.
Qed.

Lemma item_never_retry_witness :
  exists r tr', compilation_func 5 d_retrying K2_analyzer ok_output cu1 [EvNext] = Some (r, tr')
    /\ r <> Some ErrRetry.
Proof.
  do 2 eexists. split; [vm_compute; reflexivity|].
  eapply (item_never_retry 5 d_retrying K2_analyzer ok_output cu1 [EvNext]).
  vm_compute. reflexivity.
Defined.

(** X3. [Run] returns [ErrRetry] only when the last [Next] call of the run
    (made at a history extending the initial one) answered [ErrRetry]
    itself: no [ErrRetry] of the analyzer or the hook reaches the caller. *)
Theorem Run_retry_only_from_queue fuel d q tr tr' :
  Run fuel d q tr = Some (Some ErrRetry, tr') ->
  exists tr0, q tr0 = Stop ErrRetry /\ tr' = tr0 ++ [EvNext] /\ exists ext, tr0 = tr ++ ext.
Proof.
  unfold Run, validate. intros E.
  destruct (Analyzer d) as [a|]; [|discriminate].
  destruct (Output d) as [out|]; [|discriminate].
  exact (run_loop_retry _ _ _ _ _ _ _ E).
Qed.

Lemma Run_retry_only_from_queue_witness :
  Run 3 d_ok (fun tr => match tr with [] => Item cu1 | _ => Stop ErrRetry end) []
    = Some (Some ErrRetry, [EvNext; EvAnalyze (request d_ok cu1); EvTeardown cu1; EvNext]) /\
  exists tr0, (fun tr : trace => match tr with [] => Item cu1 | _ => Stop ErrRetry end) tr0
                = Stop ErrRetry /\
    [EvNext; EvAnalyze (request d_ok cu1); EvTeardown cu1; EvNext] = tr0 ++ [EvNext] /\
    exists ext, tr0 = [] ++ ext.
Proof.
  split; [reflexivity|].
  exact (Run_retry_only_from_queue 3 d_ok
           (fun tr => match tr with [] => Item cu1 | _ => Stop ErrRetry end) []
           [EvNext; EvAnalyze (request d_ok cu1); EvTeardown cu1; EvNext] eq_refl).
Defined.

(** X4. Within one item, [Teardown] is called at most once, for the item's
    compilation, and after it nothing but the warning log happens: no
    [Output], no [Analyze]. When [Teardown] is set and [Setup] did not fail,
    it is called. *)
Theorem item_teardown_last fuel d a out cu tr r tr' :
  compilation_func fuel d a out cu tr = Some (r, tr') ->
  exists pre post, tr' = tr ++ pre ++ post /\
    Forall (fun ev => is_teardown ev = false) pre /\
    (post = [] \/ post = [EvTeardown cu] \/ exists m, post = [EvTeardown cu; EvLog m]) /\
    (Teardown d <> None -> (forall s, Setup d = Some s -> s tr cu = None) -> post <> []).
Proof.
  intros E.
  destruct (compilation_func_shape _ _ _ _ _ _ _ _ E) as (pre & post & -> & F & Sh & T & _).
  exists pre, post. split; [done|]. split; [|auto].
  eapply Forall_impl; [exact F|]. by intros ev [_ ?].
Qed.

Lemma item_teardown_last_witness :
  exists pre post,
    [EvNext; EvAnalyze (request d_retrying cu1); EvOutput "out";
     EvAnalyze (request d_retrying cu1); EvOutput "out";
     EvAnalyze (request d_retrying cu1); EvOutput "out"; EvTeardown cu1] = [EvNext] ++ pre ++ post /\
    Forall (fun ev => is_teardown ev = false) pre /\
    (post = [] \/ post = [EvTeardown cu1] \/ exists m, post = [EvTeardown cu1; EvLog m]) /\
    (Teardown d_retrying <> None ->
     (forall s, Setup d_retrying = Some s -> s [EvNext] cu1 = None) -> post <> []).
Proof.
  eapply (item_teardown_last 5 d_retrying K2_analyzer ok_output cu1 [EvNext] None).
  vm_compute. reflexivity.
Defined.

(** X5. A [CompilationFunc] call never calls [Next], and every event it
    causes is about its own compilation: [Setup], [Teardown] and
    [AnalysisError] get [cu], and every analysis request is built from [cu]
    and the driver's [FileDataService]. *)
Theorem item_events_concern_cu fuel d a out cu tr r tr' :
  compilation_func fuel d a out cu tr = Some (r, tr') ->
  exists ext, tr' = tr ++ ext /\ Forall (concerns d cu) ext.
Proof.
  intros E.
  destruct (compilation_func_shape _ _ _ _ _ _ _ _ E) as (pre & post & -> & F & Sh & _ & _).
  exists (pre ++ post). split; [done|]. apply Forall_app. split.
  - eapply Forall_impl; [exact F|]. by intros ev [? _].
  - destruct Sh as [-> | [-> | [m ->]]]; repeat constructor.
Qed.

Lemma item_events_concern_cu_witness :
  exists ext,
    [EvNext; EvAnalyze (request d_retrying cu1); EvOutput "out";
     EvAnalyze (request d_retrying cu1); EvOutput "out";
     EvAnalyze (request d_retrying cu1); EvOutput "out"; EvTeardown cu1] = [EvNext] ++ ext /\
    Forall (concerns d_retrying cu1) ext.
Proof.
  eapply (item_events_concern_cu 5 d_retrying K2_analyzer ok_output cu1 [EvNext] None).
  vm_compute. reflexivity.
Defined.

Lemma analysis_loop_forever d a out cu (os : trace -> AnalysisRequest -> list AnalysisOutput) :
  AnalysisError d = None ->
  (forall tr req, a tr req = emit_all (os tr req) (Some ErrRetry)) ->
  forall fuel tr, analysis_loop fuel d a out cu (Some ErrRetry) tr = None.
Proof.
  intros Hno Ha. induction fuel as [|fuel IH]; intros tr; [reflexivity|].
  cbn [analysis_loop is_retry]. unfold analysis_step, analyze.
  rewrite Ha, RetryCounting.run_analyzer_emit_all, Hno. apply IH.
Qed.

(** X6. Without an [AnalysisError] hook, an analyzer that always answers
    [ErrRetry] is retried without bound: once [Run] pulls such an item it
    never returns, whatever the fuel. *)
Theorem Run_retry_forever d a out q tr cu
    (os : trace -> AnalysisRequest -> list AnalysisOutput) :
  Analyzer d = Some a -> Output d = Some out -> Setup d = None ->
  AnalysisError d = None ->
  (forall tr req, a tr req = emit_all (os tr req) (Some ErrRetry)) ->
  q tr = Item cu ->
  forall fuel, Run fuel d q tr = None.
Proof.
  intros Ha Ho Hs Hno Hr Hq fuel. unfold Run, validate. rewrite Ha, Ho.
  destruct fuel as [|fuel]; [reflexivity|].
  cbn [run_loop]. unfold next. rewrite Hq. unfold compilation_func. rewrite Hs.
  rewrite (analysis_loop_forever d a out cu os Hno Hr). reflexivity.
Qed.

Lemma Run_retry_forever_witness :
  Run 10 (driver_with (Some retrying_analyzer) (Some ok_output) None None None)
      one_item_queue [] = None.
Proof.
  apply (Run_retry_forever (driver_with (Some retrying_analyzer) (Some ok_output) None None None)
           retrying_analyzer ok_output one_item_queue [] cu1 (fun _ _ => []));
    reflexivity.
Defined.

(** X7. An [AnalysisError] hook that always answers nil suppresses every
    analyzer error, [ErrRetry] included: the analyzer is called exactly once
    and the loop ends with nil. *)
Theorem hook_suppresses_errors fuel d a out cu tr h :
  AnalysisError d = Some h -> (forall tr c e, h tr c e = None) ->
  analysis_loop (S (S fuel)) d a out cu (Some ErrRetry) tr =
  Some (None, let '(r, tr1) := analyze d a out cu tr in
              match r with None => tr1 | Some e => tr1 ++ [EvAnalysisError cu e] end).
Proof.
  intros Hd Hh. cbn [analysis_loop is_retry]. unfold analysis_step.
  destruct (analyze d a out cu tr) as [[e|] tr1]; rewrite Hd; [rewrite Hh|]; reflexivity.
Qed.

Lemma hook_suppresses_errors_witness :
  analysis_loop 2 (driver_with (Some retrying_analyzer) (Some ok_output) None None
                     (Some (fun _ _ _ => None)))
    retrying_analyzer ok_output cu1 (Some ErrRetry) [EvNext] =
  Some (None, [EvNext;
               EvAnalyze (request (driver_with (Some retrying_analyzer) (Some ok_output) None None
                                     (Some (fun _ _ _ => None))) cu1);
               EvAnalysisError cu1 ErrRetry]).
Proof.
  exact (hook_suppresses_errors 0 (driver_with (Some retrying_analyzer) (Some ok_output) None None
                                     (Some (fun _ _ _ => None)))
           retrying_analyzer ok_output cu1 [EvNext] _ eq_refl (fun _ _ _ => eq_refl)).
Defined.

(** X8. An analyzer answering [io.EOF] ends [Run] with nil, like the end of
    the queue: no further item is pulled. *)
Theorem analyzer_eof_ends_Run fuel d a out q tr cu os :
  Analyzer d = Some a -> Output d = Some out -> Setup d = None ->
  AnalysisError d = None -> Teardown d = None -> q tr = Item cu ->
  a (tr ++ [EvNext]) (request d cu) = emit_all os (Some EOF) ->
  Run (S (S (S fuel))) d q tr =
  Some (None, tr ++ EvNext :: EvAnalyze (request d cu) :: map EvOutput os).
Proof.
  intros Ha Ho Hs Hno Htd Hq Hr. unfold Run, validate. rewrite Ha, Ho.
  cbn [run_loop]. unfold next. rewrite Hq. unfold compilation_func. rewrite Hs.
  cbn [analysis_loop is_retry]. unfold analysis_step, analyze.
  rewrite Hr, RetryCounting.run_analyzer_emit_all, Hno.
  cbn [analysis_loop is_retry]. unfold teardown_step. rewrite Htd.
  cbn [is_eof]. by rewrite <- !app_assoc.
Qed.

Lemma analyzer_eof_ends_Run_witness :
  Run 3 (driver_with (Some (fun _ _ => Return (Some EOF))) (Some ok_output) None None None)
      (queue_of_list [cu1; cu1]) [] =
  Some (None, [EvNext; EvAnalyze (request (driver_with (Some (fun _ _ => Return (Some EOF)))
                                            (Some ok_output) None None None) cu1)]).
Proof.
  exact (analyzer_eof_ends_Run 0
           (driver_with (Some (fun _ _ => Return (Some EOF))) (Some ok_output) None None None)
           _ ok_output (queue_of_list [cu1; cu1]) [] cu1 [] eq_refl eq_refl eq_refl eq_refl
           eq_refl eq_refl eq_refl).
Defined.

End ExtraFacts.

Module SelectorExtra.
Import Selector SelectorFixtures.

Lemma any_select_all_wrap {S} `{I : BazelArtifactSelector S} (evs : list BuildEvent) :
  forall s : S,
  any_select_all (wrap s) evs = (fst (select_all s evs), wrap (snd (select_all s evs))).
Proof.
  induction evs as [|ev evs IH]; intros s; [reflexivity|].
  simpl. unfold AnyArtifactSelector_Select; simpl.
  destruct (Select s ev) as [r s'].
  change (MkAnyArtifactSelector S I s') with (wrap s'). rewrite IH.
  by destruct (select_all s' evs).
Qed.

(** X9. Wrapping a selector in [AnyArtifactSelector] changes nothing: on
    any stream of events it selects the same artifacts, and afterwards its
    serialization and deserialization are those of the wrapped selector. *)
Theorem AnyArtifactSelector_transparent {S} `{I : BazelArtifactSelector S}
    (s : S) (evs : list BuildEvent) (st : Any) :
  let '(rs, s') := select_all s evs in
  any_select_all (wrap s) evs = (rs, wrap s') /\
  AnyArtifactSelector_SerializeInto (wrap s') st = SerializeInto s' st /\
  AnyArtifactSelector_DeserializeFrom (wrap s') st =
    (fst (DeserializeFrom s' st), wrap (snd (DeserializeFrom s' st))).
Proof.
  pose proof (any_select_all_wrap evs s) as E.
  destruct (select_all s evs) as [rs s']. split; [exact E|]. split; [reflexivity|].
  unfold AnyArtifactSelector_DeserializeFrom; simpl.
  by destruct (DeserializeFrom s' st).
Qed.

End SelectorExtra.
